(** * apix-gpio-example: a model of [main.c] and its properties

    The example program opens a push-button GPIO and a LED GPIO through
    libdigiapix, toggles the LED on six button presses in blocking mode and
    on six more in callback mode.  This file embeds [main.c] function by
    function: the pure parts ([parse_argument], [gpio_interrupt_cb],
    [cleanup]) as functions, [main] as a step function on a process state
    driven by a schedule of thread steps, interrupts and signals.

    What lies outside the repository is a parameter of the model:
    the C library ([strtol], [atexit], [exit], [sigaction]) is modelled from
    the C and POSIX standards, libdigiapix is an oracle ([world]). *)

From Stdlib Require Import ZArith List String Ascii Bool Lia.
Import ListNotations.

Local Open Scope Z_scope.

(** ** The C library *)

Module Libc.

(** Width of [long]: 32 bits on the 32-bit ARM modules, 64 on AArch64.
    [int] is 32 bits on both. *)
Inductive abi : Type := ILP32 | LP64.

(** [noconv_errno] is what [strtol] stores in [errno] when no conversion
    can be performed: 0 with glibc (errno untouched), [EINVAL] with
    C libraries that use the licence POSIX gives them. *)
Record libc : Type := {
  long_abi : abi;
  noconv_errno : Z
}.

Definition ERANGE : Z := 34.
Definition EINVAL : Z := 22.

Definition EXIT_SUCCESS : Z := 0.
Definition EXIT_FAILURE : Z := 1.

Definition INT_MAX : Z := 2 ^ 31 - 1.
Definition INT_MIN : Z := - 2 ^ 31.

Definition LONG_BITS (a : abi) : Z :=
  match a with ILP32 => 32 | LP64 => 64 end.
Definition LONG_MAX (a : abi) : Z := 2 ^ (LONG_BITS a - 1) - 1.
Definition LONG_MIN (a : abi) : Z := - 2 ^ (LONG_BITS a - 1).

(** Conversion of a [long] (or of an [int] expression that left the range)
    to [int]: reduction modulo 2^32, as gcc defines it. *)
Definition to_int (v : Z) : Z := (v + 2 ^ 31) mod 2 ^ 32 - 2 ^ 31.

(** Conversion to [unsigned int]. *)
Definition to_uint (v : Z) : Z := v mod 2 ^ 32.

(** [isspace] and [isdigit] in the C locale. *)
Definition isspace (c : ascii) : bool :=
  let n := N_of_ascii c in ((n =? 32) || ((9 <=? n) && (n <=? 13)))%N.

Definition isdigit (c : ascii) : bool :=
  let n := N_of_ascii c in ((48 <=? n) && (n <=? 57))%N.

Definition digit_value (c : ascii) : Z := Z.of_N (N_of_ascii c) - 48.

(** Result of a call [strtol(nptr, &endptr, 10)] made with [errno = 0]:
    the returned value, [endptr] as an offset from [nptr], and [errno]
    after the call. *)
Record strtol_t : Type := {
  result : Z;
  endptr : nat;
  errno : Z
}.

(** Leading white space: how many characters, and what follows. *)
Fixpoint skip_space (s : string) : nat * string :=
  match s with
  | String c s' =>
      if isspace c
      then let '(n, r) := skip_space s' in (S n, r)
      else (O, s)
  | EmptyString => (O, s)
  end.

(** Optional sign: is it a minus, how many characters, what follows. *)
Definition skip_sign (s : string) : bool * nat * string :=
  match s with
  | String "-"%char s' => (true, 1%nat, s')
  | String "+"%char s' => (false, 1%nat, s')
  | _ => (false, O, s)
  end.

(** The longest run of decimal digits: its value on top of [acc] and its
    length. *)
Fixpoint scan_digits (acc : Z) (s : string) : Z * nat :=
  match s with
  | String c s' =>
      if isdigit c
      then let '(v, n) := scan_digits (10 * acc + digit_value c) s' in
           (v, S n)
      else (acc, O)
  | EmptyString => (acc, O)
  end.

(** [strtol] in base 10 (ISO C 7.22.1.4): white space, an optional sign,
    then digits.  Without digits no conversion is performed: the result
    is 0 and [endptr] is [nptr].  A value outside the range of [long] is
    clamped and [errno] is [ERANGE]; [endptr] is past the digits all the
    same. *)
Definition strtol (L : libc) (nptr : string) : strtol_t :=
  let '(nsp, s1) := skip_space nptr in
  let '(neg, nsg, s2) := skip_sign s1 in
  let '(mag, nd) := scan_digits 0 s2 in
  match nd with
  | O => {| result := 0; endptr := O; errno := noconv_errno L |}
  | S _ =>
      let v := if neg then - mag else mag in
      let e := (nsp + nsg + nd)%nat in
      if LONG_MAX (long_abi L) <? v
      then {| result := LONG_MAX (long_abi L); endptr := e; errno := ERANGE |}
      else if v <? LONG_MIN (long_abi L)
      then {| result := LONG_MIN (long_abi L); endptr := e; errno := ERANGE |}
      else {| result := v; endptr := e; errno := 0 |}
  end.

(** The string a [char *] at offset [n] of [s] points to. *)
Fixpoint advance (n : nat) (s : string) : string :=
  match n, s with
  | S n', String _ s' => advance n' s'
  | _, _ => s
  end.

Definition glibc32 : libc := {| long_abi := ILP32; noconv_errno := 0 |}.
Definition glibc64 : libc := {| long_abi := LP64; noconv_errno := 0 |}.

End Libc.

Import Libc.

(** ** Argument parsing *)

Section ParseArgument.

Variable L : libc.

(** The alias table of the library configuration file, as
    [ldx_gpio_get_kernel_number] reads it. *)
Variable ldx_gpio_get_kernel_number : string -> Z.

(** [parse_argument]: main.c lines 110-126. *)
Definition parse_argument (argv : string) : Z :=
  let r := strtol L argv in
  if ((errno r =? ERANGE)
      && ((result r =? LONG_MAX (long_abi L))
          || (result r =? LONG_MIN (long_abi L))))
     || (negb (errno r =? 0) && (result r =? 0))
  then -1
  else if (endptr r =? 0)%nat
  then ldx_gpio_get_kernel_number (advance (endptr r) argv)
  else to_int (result r).

End ParseArgument.

(** ** libdigiapix *)

Module Ldx.

(** Modelled from the spec: the enumerations of libdigiapix's [gpio.h],
    which [main.c] includes and the repository does not contain
    (direction and edge trigger, logical value, outcome of a blocking
    wait, active mode, request mode), under the names [main.c] uses. *)
Inductive gpio_mode_t : Type :=
| GPIO_INPUT
| GPIO_OUTPUT_LOW
| GPIO_OUTPUT_HIGH
| GPIO_IRQ_EDGE_RISING
| GPIO_IRQ_EDGE_FALLING
| GPIO_IRQ_EDGE_BOTH.

Inductive gpio_value_t : Type :=
| GPIO_VALUE_ERROR
| GPIO_LOW
| GPIO_HIGH.

Inductive gpio_irq_error_t : Type :=
| GPIO_IRQ_ERROR_NONE
| GPIO_IRQ_ERROR_TIMEOUT
| GPIO_IRQ_ERROR.

Inductive gpio_active_mode_t : Type :=
| GPIO_ACTIVE_HIGH
| GPIO_ACTIVE_LOW.

Inductive request_mode_t : Type :=
| REQUEST_SHARED
| REQUEST_GREEDY
| REQUEST_WEAK.

(** A [gpio_value_t] used as a C condition: [GPIO_LOW] is the zero of
    the enumeration. *)
Definition is_set (v : gpio_value_t) : bool :=
  match v with
  | GPIO_LOW => false
  | _ => true
  end.

(** A requested line, as the [gpio_t] the library allocates for it. *)
Definition gpio_t : Type := Z.

(** A [gpio_t *]: [None] is [NULL]. *)
Definition gpio_ptr : Type := option gpio_t.

End Ldx.

Import Ldx.

(** ** The process and what it does to the outside *)

Inductive signal : Type := SIGHUP | SIGINT | SIGTERM.

Definition signal_eqb (a b : signal) : bool :=
  match a, b with
  | SIGHUP, SIGHUP | SIGINT, SIGINT | SIGTERM, SIGTERM => true
  | _, _ => false
  end.

(** Calls that reach outside the program, in the order they are made.  Of
    a [printf] the format is kept and the arguments are not. *)
Inductive event : Type :=
| ev_printf (fmt : string)
| ev_atexit
| ev_sigaction (sig : signal)
| ev_gpio_request (kernel_number : Z) (mode : gpio_mode_t)
    (request_mode : request_mode_t)
| ev_gpio_set_active_mode (g : gpio_ptr) (mode : gpio_active_mode_t)
| ev_gpio_wait_interrupt (g : gpio_ptr) (timeout : Z)
| ev_gpio_set_value (g : gpio_ptr) (v : gpio_value_t)
| ev_gpio_start_wait_interrupt (g : gpio_ptr)
| ev_gpio_stop_wait_interrupt (g : gpio_ptr)
| ev_gpio_free (g : gpio_ptr)
| ev_sleep (seconds : Z).

(** Everything [main.c] does not decide: the C library, the command line,
    the alias table and the behaviour of the GPIO lines.  The blocking
    wait is called once per iteration of the loop of [main], so its
    outcomes are indexed by the iteration. *)
Record world : Type := {
  c_library : libc;
  argv : list string;
  ldx_gpio_get_kernel_number : string -> Z;
  ldx_gpio_request : Z -> gpio_mode_t -> request_mode_t -> gpio_ptr;
  ldx_gpio_wait_interrupt : nat -> gpio_irq_error_t;
  ldx_gpio_start_wait_interrupt : Z
}.

Definition TEST_LOOPS : nat := 6.
Definition DEFAULT_USER_LED_ALIAS : string := "USER_LED".
Definition DEFAULT_USER_BUTTON_ALIAS : string := "USER_BUTTON".

(** The two messages that tell a press handled by the blocking loop from
    an interrupt handled by the callback. *)
Definition msg_press : string := "Press %d; toggling output GPIO".
Definition msg_interrupt : string :=
  "Input GPIO interrupt detected; toggling output GPIO".

(** [struct gpio_interrupt_cb_data] *)
Record gpio_interrupt_cb_data : Type := {
  gpio : gpio_ptr;
  value : gpio_value_t;
  remaining_loops : Z
}.

(** Where the main thread stands, with the locals of [main] that are live
    there. *)
Inductive pc_t : Type :=
| at_entry
| at_atexit (button led : Z)
| at_sigaction (button led : Z) (sig : signal)
| at_request_input (button led : Z)
| at_request_output (led : Z)
| at_blocking (i : nat) (output_value : gpio_value_t)
| at_async (output_value : gpio_value_t)
| at_parent (cb_data : gpio_interrupt_cb_data)
| exited (status : Z)
| killed (sig : signal).

(** The only function [main.c] hands to [atexit]. *)
Inductive atexit_fn : Type := fn_cleanup.

Record process : Type := {
  pc : pc_t;
  gpio_input : gpio_ptr;
  gpio_output : gpio_ptr;
  atexit_fns : list atexit_fn;
  sa_handlers : list signal;
  trace : list event
}.

Definition goto (l : pc_t) (p : process) : process :=
  {| pc := l; gpio_input := gpio_input p; gpio_output := gpio_output p;
     atexit_fns := atexit_fns p; sa_handlers := sa_handlers p;
     trace := trace p |}.

Definition emit (evs : list event) (p : process) : process :=
  {| pc := pc p; gpio_input := gpio_input p; gpio_output := gpio_output p;
     atexit_fns := atexit_fns p; sa_handlers := sa_handlers p;
     trace := trace p ++ evs |}.

Definition set_gpio_input (g : gpio_ptr) (p : process) : process :=
  {| pc := pc p; gpio_input := g; gpio_output := gpio_output p;
     atexit_fns := atexit_fns p; sa_handlers := sa_handlers p;
     trace := trace p |}.

Definition set_gpio_output (g : gpio_ptr) (p : process) : process :=
  {| pc := pc p; gpio_input := gpio_input p; gpio_output := g;
     atexit_fns := atexit_fns p; sa_handlers := sa_handlers p;
     trace := trace p |}.

(** [atexit(f)] *)
Definition atexit (f : atexit_fn) (p : process) : process :=
  let p := emit [ev_atexit] p in
  {| pc := pc p; gpio_input := gpio_input p; gpio_output := gpio_output p;
     atexit_fns := f :: atexit_fns p; sa_handlers := sa_handlers p;
     trace := trace p |}.

(** [sigaction(sig, &action, NULL)] with [sigaction_handler] as the
    handler. *)
Definition sigaction (sig : signal) (p : process) : process :=
  let p := emit [ev_sigaction sig] p in
  {| pc := pc p; gpio_input := gpio_input p; gpio_output := gpio_output p;
     atexit_fns := atexit_fns p; sa_handlers := sig :: sa_handlers p;
     trace := trace p |}.

Definition start : process :=
  {| pc := at_entry; gpio_input := None; gpio_output := None;
     atexit_fns := []; sa_handlers := []; trace := [] |}.

(** ** The functions of main.c *)

(** [cleanup]: main.c lines 65-73. *)
Definition cleanup (p : process) : process :=
  emit [ev_gpio_stop_wait_interrupt (gpio_input p);
        ev_gpio_free (gpio_input p);
        ev_gpio_free (gpio_output p)] p.

Definition call_atexit_fn (p : process) (f : atexit_fn) : process :=
  match f with
  | fn_cleanup => cleanup p
  end.

(** [exit(status)]: the functions registered with [atexit] are called,
    the last registered first, then the process ends.  A [return] from
    [main] is an [exit] with the returned value.  The whole of it is one
    step: nothing is delivered to a process that is exiting. *)
Definition exit (status : Z) (p : process) : process :=
  goto (exited status) (fold_left call_atexit_fn (atexit_fns p) p).

(** [usage_and_exit]: main.c lines 47-60. *)
Definition usage_and_exit (exitval : Z) (p : process) : process :=
  exit exitval
    (emit [ev_printf "Example application using libdigiapix GPIO support"] p).

(** [sigaction_handler]: main.c lines 80-84. *)
Definition sigaction_handler (signum : signal) (p : process) : process :=
  exit EXIT_FAILURE p.

(** [gpio_interrupt_cb]: main.c lines 133-147.  The calls it makes, the
    data it leaves behind [arg], and its return value. *)
Definition gpio_interrupt_cb (data : gpio_interrupt_cb_data)
  : list event * gpio_interrupt_cb_data * Z :=
  let value' := if is_set (value data) then GPIO_LOW else GPIO_HIGH in
  ([ev_printf msg_interrupt;
    ev_gpio_set_value (gpio data) value'],
   {| gpio := gpio data;
      value := value';
      remaining_loops := to_int (remaining_loops data - 1) |},
   0).

(** What happens next is chosen from outside: the main thread runs, the
    callback thread sees an edge, or a signal is delivered. *)
Inductive sched : Type :=
| Main
| Edge
| Signal (sig : signal).

Section Main.

Variable w : world.

(** "Check input parameters", main.c lines 156-167: [button] and [led],
    or [None] where [main] calls [usage_and_exit]. *)
Definition check_input_parameters : option (Z * Z) :=
  let parse :=
    parse_argument (c_library w) (ldx_gpio_get_kernel_number w) in
  let argc := List.length (argv w) in
  if (argc =? 1)%nat
  then Some (parse DEFAULT_USER_BUTTON_ALIAS, parse DEFAULT_USER_LED_ALIAS)
  else if (argc =? 3)%nat
  then Some (parse (nth 1 (argv w) ""%string),
             parse (nth 2 (argv w) ""%string))
  else None.

(** One step of the main thread: from one call that a signal or the
    callback thread can come in front of to the next. *)
Definition main_step (p : process) : process :=
  match pc p with
  | at_entry =>
      match check_input_parameters with
      | None => usage_and_exit EXIT_FAILURE p
      | Some (button, led) =>
          if (button <? 0) || (led <? 0)
          then exit EXIT_FAILURE
                 (emit [ev_printf "Unable to parse button and led GPIOs"] p)
          else goto (at_atexit button led) p
      end
  | at_atexit button led =>
      goto (at_sigaction button led SIGHUP) (atexit fn_cleanup p)
  | at_sigaction button led sig =>
      (* register_signals, main.c lines 89-100 *)
      let p := sigaction sig p in
      match sig with
      | SIGHUP => goto (at_sigaction button led SIGINT) p
      | SIGINT => goto (at_sigaction button led SIGTERM) p
      | SIGTERM => goto (at_request_input button led) p
      end
  | at_request_input button led =>
      let g := ldx_gpio_request w (to_uint button) GPIO_IRQ_EDGE_RISING
                 REQUEST_SHARED in
      let p := set_gpio_input g
                 (emit [ev_gpio_request (to_uint button)
                          GPIO_IRQ_EDGE_RISING REQUEST_SHARED] p) in
      match g with
      | None =>
          exit EXIT_FAILURE
            (emit [ev_printf "Failed to initialize input GPIO"] p)
      | Some _ => goto (at_request_output led) p
      end
  | at_request_output led =>
      let g := ldx_gpio_request w (to_uint led) GPIO_OUTPUT_LOW
                 REQUEST_SHARED in
      let p := set_gpio_output g
                 (emit [ev_gpio_request (to_uint led)
                          GPIO_OUTPUT_LOW REQUEST_SHARED] p) in
      match g with
      | None =>
          exit EXIT_FAILURE
            (emit [ev_printf "Failed to initialize output GPIO"] p)
      | Some _ =>
          goto (at_blocking 0 GPIO_LOW)
            (emit [ev_gpio_set_active_mode (gpio_input p) GPIO_ACTIVE_HIGH;
                   ev_printf "[INFO] Testing interrupt blocking mode";
                   ev_printf "Press the button (for %d events):"] p)
      end
  | at_blocking i output_value =>
      if (i <? TEST_LOOPS)%nat
      then
        let p := emit [ev_gpio_wait_interrupt (gpio_input p) (-1)] p in
        match ldx_gpio_wait_interrupt w i with
        | GPIO_IRQ_ERROR_NONE =>
            let output_value :=
              if is_set output_value then GPIO_LOW else GPIO_HIGH in
            goto (at_blocking (S i) output_value)
              (emit [ev_printf msg_press;
                     ev_gpio_set_value (gpio_output p) output_value] p)
        | _ => goto (at_blocking (S i) output_value) p
        end
      else
        goto (at_async output_value)
          (emit [ev_printf "[INFO] Testing interrupt asynchronous mode"] p)
  | at_async output_value =>
      let cb_data := {| gpio := gpio_output p;
                        value := output_value;
                        remaining_loops := Z.of_nat TEST_LOOPS |} in
      let p :=
        emit [ev_printf
                "Parent process will wait until %d interrupts have been detected";
              ev_gpio_start_wait_interrupt (gpio_input p)] p in
      if negb (ldx_gpio_start_wait_interrupt w =? EXIT_SUCCESS)
      then exit EXIT_FAILURE
             (emit [ev_printf "Failed to start interrupt handler thread"] p)
      else goto (at_parent cb_data) p
  | at_parent cb_data =>
      if 0 <? remaining_loops cb_data
      then emit [ev_printf "Parent process: waiting ..."; ev_sleep 5] p
      else exit EXIT_SUCCESS
             (emit [ev_printf
                      "Parent process: no remaining interrupts. Test finished"]
                p)
  | exited _ | killed _ => p
  end.

(** The thread that [ldx_gpio_start_wait_interrupt] starts detects an
    edge on the input line and calls [gpio_interrupt_cb(&cb_data)].  It
    exists from the successful start until the process ends. *)
Definition interrupt_step (p : process) : process :=
  match pc p with
  | at_parent cb_data =>
      let '(evs, cb_data', _) := gpio_interrupt_cb cb_data in
      goto (at_parent cb_data') (emit evs p)
  | _ => p
  end.

(** Delivery of a signal: the handler if [sigaction] installed one, else
    the default action of SIGHUP, SIGINT and SIGTERM, which ends the
    process on the spot. *)
Definition signal_step (sig : signal) (p : process) : process :=
  match pc p with
  | exited _ | killed _ => p
  | _ =>
      if existsb (signal_eqb sig) (sa_handlers p)
      then sigaction_handler sig p
      else goto (killed sig) p
  end.

Definition step (p : process) (x : sched) : process :=
  match x with
  | Main => main_step p
  | Edge => interrupt_step p
  | Signal sig => signal_step sig p
  end.

Definition run_from (p : process) (xs : list sched) : process :=
  fold_left step xs p.

Definition run (xs : list sched) : process := run_from start xs.

End Main.

(** ** Reading a trace *)

Definition count_ev (f : event -> bool) (tr : list event) : nat :=
  List.length (filter f tr).

Definition is_atexit (e : event) : bool :=
  match e with ev_atexit => true | _ => false end.

(** [cleanup] is the only caller of [ldx_gpio_stop_wait_interrupt]: its
    calls count the runs of the hook. *)
Definition is_stop_wait (e : event) : bool :=
  match e with ev_gpio_stop_wait_interrupt _ => true | _ => false end.

Definition is_free (e : event) : bool :=
  match e with ev_gpio_free _ => true | _ => false end.

Definition is_wait (e : event) : bool :=
  match e with ev_gpio_wait_interrupt _ _ => true | _ => false end.

Definition is_printf (msg : string) (e : event) : bool :=
  match e with ev_printf fmt => String.eqb fmt msg | _ => false end.

Definition n_atexit : list event -> nat := count_ev is_atexit.
Definition n_cleanup : list event -> nat := count_ev is_stop_wait.
Definition n_free : list event -> nat := count_ev is_free.
Definition n_wait : list event -> nat := count_ev is_wait.
Definition n_press : list event -> nat := count_ev (is_printf msg_press).
Definition n_callback : list event -> nat :=
  count_ev (is_printf msg_interrupt).

(** The lines driven and the values driven on them, oldest first. *)
Definition set_value_of (e : event) : list (gpio_ptr * gpio_value_t) :=
  match e with ev_gpio_set_value g v => [(g, v)] | _ => [] end.

Definition sets (tr : list event) : list (gpio_ptr * gpio_value_t) :=
  flat_map set_value_of tr.

Definition writes (tr : list event) : list gpio_value_t :=
  map snd (sets tr).

(** The level of a line that was low and has been toggled [k] times. *)
Definition level (k : nat) : gpio_value_t :=
  if Nat.odd k then GPIO_HIGH else GPIO_LOW.

(** High, Low, High, ... [n] values. *)
Definition alternation (n : nat) : list gpio_value_t :=
  map level (seq 1 n).

(** How many of the first [n] blocking waits detect an edge. *)
Fixpoint successes (w : world) (n : nat) : nat :=
  match n with
  | O => O
  | S n' =>
      match ldx_gpio_wait_interrupt w n' with
      | GPIO_IRQ_ERROR_NONE => S (successes w n')
      | _ => successes w n'
      end
  end.

Definition ended (p : process) : bool :=
  match pc p with
  | exited _ | killed _ => true
  | _ => false
  end.

Definition handles (p : process) (sig : signal) : bool :=
  existsb (signal_eqb sig) (sa_handlers p).

(** ** Shapes of the argument of [parse_argument] *)

Inductive sign : Type := NoSign | Plus | Minus.

Definition sign_string (sg : sign) : string :=
  match sg with
  | NoSign => ""
  | Plus => "+"
  | Minus => "-"
  end.

Definition signed (sg : sign) (n : Z) : Z :=
  match sg with
  | Minus => - n
  | _ => n
  end.

Fixpoint all_chars (f : ascii -> bool) (s : string) : bool :=
  match s with
  | EmptyString => true
  | String c s' => f c && all_chars f s'
  end.

Definition head_is (f : ascii -> bool) (s : string) : bool :=
  match s with
  | EmptyString => false
  | String c _ => f c
  end.

Definition is_sign (c : ascii) : bool :=
  Ascii.eqb c "+" || Ascii.eqb c "-".

(** The number a string of decimal digits denotes. *)
Fixpoint decimal_from (acc : Z) (ds : string) : Z :=
  match ds with
  | EmptyString => acc
  | String c ds' => decimal_from (10 * acc + digit_value c) ds'
  end.

Definition decimal (ds : string) : Z := decimal_from 0 ds.

(** ** Sample worlds *)

(** An alias table with the two default aliases. *)
Definition board_aliases (s : string) : Z :=
  if String.eqb s DEFAULT_USER_BUTTON_ALIAS then 10
  else if String.eqb s DEFAULT_USER_LED_ALIAS then 20
  else -1.

(** A board on glibc for 32-bit ARM: the lines [present] can be requested,
    the blocking waits end as [waits] says, the callback thread starts. *)
Definition board (args : list string) (present : Z -> bool)
    (waits : nat -> gpio_irq_error_t) : world :=
  {| c_library := glibc32;
     argv := args;
     ldx_gpio_get_kernel_number := board_aliases;
     ldx_gpio_request := fun n _ _ => if present n then Some n else None;
     ldx_gpio_wait_interrupt := waits;
     ldx_gpio_start_wait_interrupt := EXIT_SUCCESS |}.

Definition every_line (n : Z) : bool := true.
Definition every_press (i : nat) : gpio_irq_error_t := GPIO_IRQ_ERROR_NONE.
Definition no_press (i : nat) : gpio_irq_error_t := GPIO_IRQ_ERROR.

(** The calls of [cleanup] in a process. *)
Definition cleanup_calls (p : process) : list event :=
  [ev_gpio_stop_wait_interrupt (gpio_input p);
   ev_gpio_free (gpio_input p);
   ev_gpio_free (gpio_output p)].

(** ** Invariants of the process *)

(** The signals [register_signals] has dealt with when the main thread
    stands at [l]. *)
Definition registered_handlers (l : pc_t) : list signal :=
  match l with
  | at_entry | at_atexit _ _ | at_sigaction _ _ SIGHUP => []
  | at_sigaction _ _ SIGINT => [SIGHUP]
  | at_sigaction _ _ SIGTERM => [SIGINT; SIGHUP]
  | _ => [SIGTERM; SIGINT; SIGHUP]
  end.

Definition no_cleanup (tr : list event) : Prop :=
  n_cleanup tr = O /\ n_free tr = O.

(** The hook and the handlers: what is registered where, and that the
    calls of [cleanup] come once, last, and only in a process that has
    exited with the hook registered. *)
Definition hooks_inv (p : process) : Prop :=
  n_atexit (trace p) = List.length (atexit_fns p)
  /\ (sa_handlers p = [] \/ atexit_fns p = [fn_cleanup])
  /\ match pc p with
     | at_entry | at_atexit _ _ =>
         atexit_fns p = [] /\ sa_handlers p = [] /\ no_cleanup (trace p)
     | exited _ =>
         (atexit_fns p = [] /\ no_cleanup (trace p))
         \/ (atexit_fns p = [fn_cleanup]
             /\ exists tr, trace p = (tr ++ cleanup_calls p)%list
                           /\ no_cleanup tr)
     | killed _ =>
         (List.length (atexit_fns p) <= 1)%nat /\ no_cleanup (trace p)
     | l =>
         atexit_fns p = [fn_cleanup]
         /\ sa_handlers p = registered_handlers l
         /\ no_cleanup (trace p)
     end.

(** The output line was requested, low, and the request succeeded. *)
Definition requested_low (w : world) (p : process) : Prop :=
  exists led g,
    gpio_output p = Some g
    /\ ldx_gpio_request w led GPIO_OUTPUT_LOW REQUEST_SHARED = Some g.

(** The values driven so far alternate from High, all on the output line,
    one for each press the blocking loop handled and each interrupt the
    callback handled; [output_value] and [cb_data.value] hold the last of
    them. *)
Definition toggle_inv (w : world) (p : process) : Prop :=
  let n := (n_press (trace p) + n_callback (trace p))%nat in
  sets (trace p) = map (fun k => (gpio_output p, level k)) (seq 1 n)
  /\ (n = O \/ requested_low w p)
  /\ match pc p with
     | at_blocking _ v | at_async v => v = level n /\ requested_low w p
     | at_parent d =>
         value d = level n /\ gpio d = gpio_output p /\ requested_low w p
     | exited _ | killed _ => True
     | _ => n = O
     end.

(** How far the two loops have got. *)
Definition count_inv (w : world) (p : process) : Prop :=
  let tr := trace p in
  match pc p with
  | at_blocking i _ =>
      (i <= TEST_LOOPS)%nat /\ n_wait tr = i
      /\ n_press tr = successes w i /\ n_callback tr = O
  | at_async _ =>
      n_wait tr = TEST_LOOPS
      /\ n_press tr = successes w TEST_LOOPS /\ n_callback tr = O
  | at_parent d =>
      n_wait tr = TEST_LOOPS
      /\ n_press tr = successes w TEST_LOOPS
      /\ remaining_loops d
         = to_int (Z.of_nat TEST_LOOPS - Z.of_nat (n_callback tr))
  | exited status =>
      status = EXIT_FAILURE
      \/ (status = EXIT_SUCCESS
          /\ n_wait tr = TEST_LOOPS
          /\ n_press tr = successes w TEST_LOOPS
          /\ (TEST_LOOPS <= n_callback tr)%nat)
  | killed _ => True
  | _ => n_wait tr = O /\ n_press tr = O /\ n_callback tr = O
  end.

(** The arguments [main] refuses: a count that is neither 1 nor 3, or a
    line identifier for which [parse_argument] returns a negative number
    (its error value -1, or a negative result of the alias lookup). *)
Definition bad_arguments (w : world) : Prop :=
  (List.length (argv w) <> 1%nat /\ List.length (argv w) <> 3%nat)
  \/ exists button led,
       check_input_parameters w = Some (button, led)
       /\ (button < 0 \/ led < 0).

(** With such arguments the main thread never gets past its first step. *)
Definition early_inv (p : process) : Prop :=
  (pc p = at_entry \/ ended p = true) /\ atexit_fns p = [].

(** Sample runs: [board] with the default aliases, as far as the blocking
    loop, and then as far as the parent loop of the callback mode. *)
Definition gpio_example : list string := ["apix-gpio-example"%string].

Definition to_blocking : list sched := repeat Main 7.
Definition to_parent : list sched := repeat Main 15.

(** The main thread is past [register_signals]: it requests, waits on or
    drives the GPIO lines. *)
Definition gpio_phase (p : process) : bool :=
  match pc p with
  | at_request_input _ _ | at_request_output _
  | at_blocking _ _ | at_async _ | at_parent _ => true
  | _ => false
  end.

(** * Properties *)

(** ** [strtol] on the two shapes of its argument *)

Local Open Scope string_scope.
Local Open Scope Z_scope.

Ltac ascii_cases c := destruct c as [[] [] [] [] [] [] [] []].

Lemma isdigit_not_isspace (c : ascii) : isdigit c = true -> isspace c = false.
Proof. ascii_cases c; vm_compute; congruence. Qed.

Lemma isdigit_not_sign (c : ascii) : isdigit c = true -> is_sign c = false.
Proof. ascii_cases c; vm_compute; congruence. Qed.

Lemma skip_sign_none (s : string) :
  head_is is_sign s = false -> skip_sign s = (false, O, s).
Proof.
  destruct s as [|c s]; [reflexivity|].
  ascii_cases c; vm_compute; congruence.
Qed.

Lemma skip_sign_some (sg : sign) (s : string) :
  sg <> NoSign ->
  skip_sign (sign_string sg ++ s)
  = (match sg with Minus => true | _ => false end,
     String.length (sign_string sg), s).
Proof. destruct sg; [congruence | reflexivity | reflexivity]. Qed.

Lemma skip_space_none (s : string) :
  head_is isspace s = false -> skip_space s = (O, s).
Proof.
  destruct s as [|c s]; [reflexivity|].
  simpl. intros ->. reflexivity.
Qed.

Lemma skip_space_app (ws s : string) :
  all_chars isspace ws = true ->
  head_is isspace s = false ->
  skip_space (ws ++ s) = (String.length ws, s).
Proof.
  intros Hws Hs. induction ws as [|c ws IH]; simpl in *.
  - now apply skip_space_none.
  - apply andb_true_iff in Hws as [Hc Hws].
    rewrite Hc, (IH Hws). reflexivity.
Qed.

Lemma scan_digits_none (acc : Z) (s : string) :
  head_is isdigit s = false -> scan_digits acc s = (acc, O).
Proof.
  destruct s as [|c s]; [reflexivity|].
  simpl. intros ->. reflexivity.
Qed.

Lemma scan_digits_app (ds rest : string) :
  all_chars isdigit ds = true ->
  head_is isdigit rest = false ->
  forall acc : Z,
    scan_digits acc (ds ++ rest) = (decimal_from acc ds, String.length ds).
Proof.
  intros Hds Hrest. induction ds as [|c ds IH]; intro acc; simpl in *.
  - now apply scan_digits_none.
  - apply andb_true_iff in Hds as [Hc Hds].
    rewrite Hc, (IH Hds). reflexivity.
Qed.

Lemma decimal_from_nonneg (ds : string) :
  all_chars isdigit ds = true ->
  forall acc : Z, 0 <= acc -> 0 <= decimal_from acc ds.
Proof.
  induction ds as [|c ds IH]; cbn [decimal_from all_chars];
    intros Hds acc Hacc; [exact Hacc|].
  apply andb_true_iff in Hds as [Hc Hds].
  apply IH; [exact Hds|].
  assert (0 <= digit_value c).
  { revert Hc. unfold isdigit, digit_value. cbv zeta.
    rewrite andb_true_iff, !N.leb_le. lia. }
  lia.
Qed.

(** What follows the white space and the sign is unchanged by them. *)
Lemma strtol_prefix (L : libc) (ws : string) (sg : sign) (s : string) :
  all_chars isspace ws = true ->
  (sg = NoSign -> head_is isspace s = false /\ head_is is_sign s = false) ->
  strtol L (ws ++ sign_string sg ++ s)
  = let '(mag, nd) := scan_digits 0 s in
    match nd with
    | O => {| result := 0; endptr := O; errno := noconv_errno L |}
    | S _ =>
        let v := signed sg mag in
        let e := (String.length ws + String.length (sign_string sg) + nd)%nat in
        if LONG_MAX (long_abi L) <? v
        then {| result := LONG_MAX (long_abi L); endptr := e; errno := ERANGE |}
        else if v <? LONG_MIN (long_abi L)
        then {| result := LONG_MIN (long_abi L); endptr := e; errno := ERANGE |}
        else {| result := v; endptr := e; errno := 0 |}
    end.
Proof.
  intros Hws Hs. unfold strtol.
  rewrite (skip_space_app ws (sign_string sg ++ s) Hws).
  - destruct sg.
    + destruct (Hs eq_refl) as [_ Hsign]. simpl sign_string. simpl append.
      rewrite (skip_sign_none s Hsign). reflexivity.
    + rewrite skip_sign_some by discriminate. reflexivity.
    + rewrite skip_sign_some by discriminate. reflexivity.
  - destruct sg; [exact (proj1 (Hs eq_refl)) | reflexivity | reflexivity].
Qed.

Lemma int_in_long (a : abi) : LONG_MIN a <= INT_MIN /\ INT_MAX <= LONG_MAX a.
Proof. destruct a; vm_compute; split; congruence. Qed.

Lemma long_bounds (a : abi) : LONG_MIN a < 0 < LONG_MAX a.
Proof. destruct a; vm_compute; split; reflexivity. Qed.

Lemma to_int_small (v : Z) : INT_MIN <= v <= INT_MAX -> to_int v = v.
Proof.
  unfold INT_MIN, INT_MAX, to_int.
  change (2 ^ 31) with 2147483648. change (2 ^ 32) with 4294967296.
  intros H. rewrite Z.mod_small; lia.
Qed.

Section ParseArgumentFacts.

Variable L : libc.
Variable alias : string -> Z.

Variables ws ds rest : string.
Variable sg : sign.

Hypothesis white : all_chars isspace ws = true.
Hypothesis digits : all_chars isdigit ds = true.
Hypothesis leftover : head_is isdigit rest = false.

Let n : Z := signed sg (decimal ds).
Let arg : string := ws ++ sign_string sg ++ ds ++ rest.

Lemma strtol_number :
  ds <> "" ->
  strtol L arg
  = let e := (String.length ws + String.length (sign_string sg)
              + String.length ds)%nat in
    if LONG_MAX (long_abi L) <? n
    then {| result := LONG_MAX (long_abi L); endptr := e; errno := ERANGE |}
    else if n <? LONG_MIN (long_abi L)
    then {| result := LONG_MIN (long_abi L); endptr := e; errno := ERANGE |}
    else {| result := n; endptr := e; errno := 0 |}.
Proof.
  intros Hne. unfold arg.
  rewrite strtol_prefix; [|exact white|].
  - rewrite (scan_digits_app ds rest digits leftover).
    destruct ds as [|c ds']; [congruence|]. reflexivity.
  - intros _. destruct ds as [|c ds']; [congruence|].
    cbn [all_chars] in digits. apply andb_true_iff in digits as [Hc _].
    cbn [append head_is]. split.
    + now apply isdigit_not_isspace.
    + now apply isdigit_not_sign.
Qed.

Lemma strtol_no_conversion :
  ds = "" ->
  (sg = NoSign ->
   head_is isspace rest = false /\ head_is is_sign rest = false) ->
  strtol L arg = {| result := 0; endptr := O; errno := noconv_errno L |}.
Proof.
  intros -> Hrest. unfold arg. cbn [append].
  rewrite strtol_prefix; [|exact white|exact Hrest].
  rewrite (scan_digits_none 0 rest leftover). reflexivity.
Qed.

Lemma parse_argument_in_range :
  ds <> "" -> INT_MIN <= n <= INT_MAX -> parse_argument L alias arg = n.
Proof.
  intros Hne Hn. unfold parse_argument. rewrite (strtol_number Hne).
  destruct (int_in_long (long_abi L)) as [Hlo Hhi].
  cbv zeta.
  destruct (Z.ltb_spec (LONG_MAX (long_abi L)) n) as [Hbig|_]; [lia|].
  destruct (Z.ltb_spec n (LONG_MIN (long_abi L))) as [Hsmall|_]; [lia|].
  cbn [errno result endptr].
  change (0 =? ERANGE) with false. change (0 =? 0) with true.
  cbn [andb orb negb].
  destruct ds as [|c ds']; [congruence|].
  cbn [String.length].
  rewrite Nat.add_succ_r. cbn [Nat.eqb].
  now apply to_int_small.
Qed.

Lemma parse_argument_out_of_long :
  ds <> "" ->
  n < LONG_MIN (long_abi L) \/ LONG_MAX (long_abi L) < n ->
  parse_argument L alias arg = -1.
Proof.
  intros Hne Hn. unfold parse_argument. rewrite (strtol_number Hne).
  pose proof (long_bounds (long_abi L)) as Hb.
  cbv zeta.
  destruct (Z.ltb_spec (LONG_MAX (long_abi L)) n) as [Hbig|Hle].
  - cbn [errno result endptr].
    rewrite !Z.eqb_refl. reflexivity.
  - destruct (Z.ltb_spec n (LONG_MIN (long_abi L))) as [Hsmall|Hge]; [|lia].
    cbn [errno result endptr].
    rewrite !Z.eqb_refl, orb_true_r. reflexivity.
Qed.

Lemma parse_argument_alias :
  ds = "" ->
  (sg = NoSign ->
   head_is isspace rest = false /\ head_is is_sign rest = false) ->
  noconv_errno L = 0 ->
  parse_argument L alias arg = alias arg.
Proof.
  intros Hds Hrest Herrno. unfold parse_argument.
  rewrite (strtol_no_conversion Hds Hrest).
  cbn [errno result endptr]. rewrite Herrno. reflexivity.
Qed.

End ParseArgumentFacts.

(** ** C1: what [parse_argument] returns *)

(** C1 (as amended).  Take an argument made of white space [ws], an optional
    sign [sg], decimal digits [ds] and a rest that does not begin with a
    digit.  With at least one digit, [parse_argument] returns the number the
    sign and the digits denote when it fits an [int], whatever the rest is
    (leftover characters are ignored, not rejected), and -1 when the number
    is outside the range of [long].  Without a digit the whole argument goes
    to the alias lookup [ldx_gpio_get_kernel_number] and the result of the
    lookup is returned, provided [strtol] leaves [errno] at 0 when it
    converts nothing. *)
Theorem parse_argument_resolves
    (L : libc) (alias : string -> Z) (ws ds rest : string) (sg : sign) :
  all_chars isspace ws = true ->
  all_chars isdigit ds = true ->
  head_is isdigit rest = false ->
  let arg := ws ++ sign_string sg ++ ds ++ rest in
  let n := signed sg (decimal ds) in
  (ds <> "" -> INT_MIN <= n <= INT_MAX -> parse_argument L alias arg = n)
  /\ (ds <> "" ->
      n < LONG_MIN (long_abi L) \/ LONG_MAX (long_abi L) < n ->
      parse_argument L alias arg = -1)
  /\ (ds = "" ->
      (sg = NoSign ->
       head_is isspace rest = false /\ head_is is_sign rest = false) ->
      noconv_errno L = 0 ->
      parse_argument L alias arg = alias arg).
Proof.
  intros Hws Hds Hrest arg n. repeat split.
  - now apply parse_argument_in_range.
  - now apply parse_argument_out_of_long.
  - now apply parse_argument_alias.
Qed.

Lemma parse_argument_resolves_witness :
  parse_argument glibc64 board_aliases " +12abc" = 12
  /\ parse_argument glibc64 board_aliases "-99999999999999999999" = -1
  /\ parse_argument glibc64 board_aliases "USER_LED"
     = board_aliases "USER_LED".
Proof.
  split; [|split].
  - apply (proj1 (parse_argument_resolves glibc64 board_aliases
                    " " "12" "abc" Plus eq_refl eq_refl eq_refl)).
    + discriminate.
    + vm_compute. split; discriminate.
  - apply (proj1 (proj2 (parse_argument_resolves glibc64 board_aliases
                    "" "99999999999999999999" "" Minus
                    eq_refl eq_refl eq_refl))).
    + discriminate.
    + left. vm_compute. reflexivity.
  - apply (proj2 (proj2 (parse_argument_resolves glibc64 board_aliases
                    "" "" "USER_LED" NoSign eq_refl eq_refl eq_refl))).
    + reflexivity.
    + intros _. split; reflexivity.
    + reflexivity.
Defined.

(** C1 as stated fails: digits followed by leftover characters are not
    rejected with -1, the digits are returned as the line number. *)
Lemma parse_argument_keeps_leftover :
  parse_argument glibc32 board_aliases "12abc" = 12
  /\ parse_argument glibc64 board_aliases "12abc" = 12
  /\ parse_argument glibc32 board_aliases "12abc" <> -1.
Proof. repeat split. vm_compute. discriminate. Qed.

(** Where [long] is wider than [int], a number that fits the first and not
    the second is not rejected either: the [return] cuts it to 32 bits. *)
Example parse_argument_lp64_wraps :
  parse_argument glibc64 board_aliases "4294967296" = 0
  /\ parse_argument glibc32 board_aliases "4294967296" = -1.
Proof. split; reflexivity. Qed.

(** The test [errno != 0 && value == 0]: with a C library that reports
    "no conversion" as [EINVAL], an alias never reaches the lookup. *)
Example parse_argument_einval :
  parse_argument {| long_abi := ILP32; noconv_errno := EINVAL |}
    board_aliases "USER_LED" = -1.
Proof. reflexivity. Qed.

(** ** Traces and runs *)

Lemma count_ev_app (f : event -> bool) (tr tr' : list event) :
  count_ev f (tr ++ tr')%list = (count_ev f tr + count_ev f tr')%nat.
Proof. unfold count_ev. now rewrite filter_app, length_app. Qed.

Lemma sets_app (tr tr' : list event) :
  sets (tr ++ tr')%list = (sets tr ++ sets tr')%list.
Proof. apply flat_map_app. Qed.

Lemma run_from_app (w : world) (p : process) (xs ys : list sched) :
  run_from w p (xs ++ ys)%list = run_from w (run_from w p xs) ys.
Proof. apply fold_left_app. Qed.

Lemma run_snoc (w : world) (xs : list sched) (x : sched) :
  run w (xs ++ [x])%list = step w (run w xs) x.
Proof. unfold run. now rewrite run_from_app. Qed.

(** A process that has ended stays as it is. *)
Lemma ended_step (w : world) (p : process) (x : sched) :
  ended p = true -> step w p x = p.
Proof.
  unfold ended. destruct x; cbn [step];
    unfold main_step, interrupt_step, signal_step;
    destruct (pc p); intros H; try discriminate H; reflexivity.
Qed.

Lemma ended_run_from (w : world) (xs : list sched) (p : process) :
  ended p = true -> run_from w p xs = p.
Proof.
  induction xs as [|x xs IH]; intros H; [reflexivity|].
  cbn [run_from fold_left]. rewrite (ended_step w p x H). now apply IH.
Qed.

(** A property that holds at the start and that every step keeps holds
    after every schedule. *)
Lemma run_invariant (w : world) (I : process -> Prop) :
  I start ->
  (forall p x, I p -> I (step w p x)) ->
  forall xs, I (run w xs).
Proof.
  intros H0 Hstep xs. unfold run, run_from.
  generalize dependent start.
  induction xs as [|x xs IH]; intros p Hp; [exact Hp|].
  cbn [fold_left]. apply IH. now apply Hstep.
Qed.

Create Rewrite HintDb trace_db.
#[local] Hint Rewrite count_ev_app sets_app : trace_db.

Ltac unfold_counts :=
  unfold no_cleanup, n_atexit, n_cleanup, n_free, n_wait, n_press, n_callback
    in *.

(** ** The cleanup hook *)

Lemma hooks_inv_start : hooks_inv start.
Proof. cbv. auto 6. Qed.

Ltac run_defs :=
  unfold cleanup_calls in *;
  cbn [exit usage_and_exit sigaction_handler goto emit set_gpio_input
       set_gpio_output atexit sigaction cleanup call_atexit_fn fold_left
       pc trace atexit_fns sa_handlers gpio_input gpio_output
       registered_handlers] in *.

Ltac count_tac :=
  unfold_counts; autorewrite with trace_db in *;
  cbn [count_ev filter List.length is_atexit is_stop_wait is_free is_wait
       is_printf sets flat_map set_value_of app] in *.

Ltac split_hyps :=
  repeat match goal with
         | H : _ /\ _ |- _ => destruct H
         | H : exists _, _ |- _ => destruct H
         end.

Ltac hooks_close :=
  run_defs; split_hyps; subst; run_defs; count_tac;
  split; [lia|];
  split; [first [left; reflexivity | right; reflexivity | assumption]|];
  first
    [ repeat split; (reflexivity || lia)
    | left; repeat split; (reflexivity || lia)
    | right; split; [reflexivity|];
      eexists; split; [reflexivity|];
      count_tac; split; lia ].

Lemma hooks_inv_step (w : world) (p : process) (x : sched) :
  hooks_inv p -> hooks_inv (step w p x).
Proof.
  destruct p as [l gi go fns hs tr]. unfold hooks_inv.
  cbn [pc trace atexit_fns sa_handlers gpio_input gpio_output].
  intros (Hn & Hh & Hl).
  destruct x as [| |sig]; cbn [step].
  - (* the main thread *)
    unfold main_step. cbn [pc].
    destruct l.
    + destruct check_input_parameters as [[button led]|];
        [destruct ((button <? 0) || (led <? 0))|]; hooks_close.
    + hooks_close.
    + destruct sig; hooks_close.
    + destruct ldx_gpio_request; hooks_close.
    + destruct ldx_gpio_request; hooks_close.
    + destruct (i <? TEST_LOOPS)%nat; [destruct ldx_gpio_wait_interrupt|];
        hooks_close.
    + destruct (negb _); hooks_close.
    + destruct (0 <? _); hooks_close.
    + exact (conj Hn (conj Hh Hl)).
    + exact (conj Hn (conj Hh Hl)).
  - (* the callback thread *)
    unfold interrupt_step. cbn [pc].
    destruct l; try exact (conj Hn (conj Hh Hl)).
    unfold gpio_interrupt_cb. hooks_close.
  - (* a signal *)
    unfold signal_step, handles. cbn [pc sa_handlers].
    destruct l; try exact (conj Hn (conj Hh Hl)).
    all: destruct (existsb _ _); hooks_close.
Qed.

Lemma hooks_inv_run (w : world) (xs : list sched) : hooks_inv (run w xs).
Proof.
  apply run_invariant; [exact hooks_inv_start | apply hooks_inv_step].
Qed.

(** ** The output line *)

Lemma toggle_level (n : nat) :
  (if is_set (level n) then GPIO_LOW else GPIO_HIGH) = level (S n).
Proof.
  unfold level. rewrite Nat.odd_succ, <- Nat.negb_odd.
  destruct (Nat.odd n); reflexivity.
Qed.

Lemma levels_snoc (g : gpio_ptr) (n : nat) :
  map (fun k => (g, level k)) (seq 1 (S n))
  = (map (fun k => (g, level k)) (seq 1 n) ++ [(g, level (S n))])%list.
Proof. now rewrite seq_S, map_app. Qed.

Lemma toggle_inv_start (w : world) : toggle_inv w start.
Proof. cbv. auto. Qed.

Ltac toggle_close :=
  run_defs; split_hyps; subst; run_defs;
  unfold msg_press, msg_interrupt in *; count_tac;
  cbn [String.eqb Ascii.eqb Bool.eqb List.length] in *;
  try match goal with H : value _ = level _ |- _ => rewrite H end;
  rewrite ?Nat.add_0_r, ?app_nil_r, ?Nat.add_1_r, ?Nat.add_succ_l,
    ?Nat.add_succ_r, ?toggle_level in *;
  repeat match goal with
         | |- _ /\ _ => split
         | |- True => exact I
         end;
  try assumption; try reflexivity; try lia;
  try (right; eauto; fail); try (eauto; fail);
  try (match goal with
       | H : (?a + ?b)%nat = O, Hs : sets _ = _ |- _ =>
           rewrite H in Hs; rewrite H; exact Hs
       end);
  try (match goal with
       | H : (?a + ?b)%nat = O |- _ = level _ => rewrite H; reflexivity
       end);
  try (match goal with
       | Hs : sets _ = _ |- _ => rewrite levels_snoc, <- Hs; reflexivity
       end).

Lemma toggle_inv_step (w : world) (p : process) (x : sched) :
  hooks_inv p -> toggle_inv w p -> toggle_inv w (step w p x).
Proof.
  destruct p as [l gi go fns hs tr]. unfold hooks_inv, toggle_inv, requested_low.
  cbn [pc trace atexit_fns sa_handlers gpio_input gpio_output].
  intros (_ & _ & Hh) (Hs & Hreq & Hl).
  destruct x as [| |sig]; cbn [step].
  - (* the main thread *)
    unfold main_step. cbn [pc].
    destruct l.
    + destruct check_input_parameters as [[button led]|];
        [destruct ((button <? 0) || (led <? 0))|]; toggle_close.
    + toggle_close.
    + destruct sig; toggle_close.
    + destruct ldx_gpio_request; toggle_close.
    + destruct ldx_gpio_request eqn:Hg; toggle_close.
    + destruct (i <? TEST_LOOPS)%nat; [destruct ldx_gpio_wait_interrupt|];
        toggle_close.
    + destruct (negb _); toggle_close.
    + destruct (0 <? _); toggle_close.
    + toggle_close.
    + toggle_close.
  - (* the callback thread *)
    unfold interrupt_step. cbn [pc].
    destruct l; try unfold gpio_interrupt_cb; toggle_close.
  - (* a signal *)
    unfold signal_step, handles. cbn [pc sa_handlers].
    destruct l; try (destruct (existsb _ _)); toggle_close.
Qed.

Lemma toggle_inv_run (w : world) (xs : list sched) : toggle_inv w (run w xs).
Proof.
  apply (run_invariant w (fun p => hooks_inv p /\ toggle_inv w p)).
  - split; [exact hooks_inv_start | exact (toggle_inv_start w)].
  - intros p x [Hh Ht]. split.
    + now apply hooks_inv_step.
    + now apply toggle_inv_step.
Qed.

(** ** The two loops *)

Lemma to_int_range (a : Z) : INT_MIN <= to_int a <= INT_MAX.
Proof.
  unfold to_int, INT_MIN, INT_MAX.
  change (2 ^ 31) with 2147483648. change (2 ^ 32) with 4294967296.
  pose proof (Z.mod_pos_bound (a + 2147483648) 4294967296). lia.
Qed.

Lemma to_int_sub (a b : Z) : to_int (to_int a - b) = to_int (a - b).
Proof.
  unfold to_int.
  replace ((a + 2 ^ 31) mod 2 ^ 32 - 2 ^ 31 - b + 2 ^ 31)
    with ((a + 2 ^ 31) mod 2 ^ 32 - b) by lia.
  rewrite Zminus_mod_idemp_l. do 2 f_equal. lia.
Qed.

Lemma count_inv_start (w : world) : count_inv w start.
Proof. cbv. auto. Qed.

Lemma remaining_done (n : nat) :
  to_int (Z.of_nat TEST_LOOPS - Z.of_nat n) <= 0 -> (TEST_LOOPS <= n)%nat.
Proof.
  intros H. destruct (le_lt_dec TEST_LOOPS n) as [Hle|Hlt]; [exact Hle|].
  rewrite to_int_small in H;
    unfold TEST_LOOPS, INT_MIN, INT_MAX in *; lia.
Qed.

Ltac count_close :=
  run_defs; split_hyps; subst; run_defs;
  unfold msg_press, msg_interrupt in *; count_tac;
  cbn [String.eqb Ascii.eqb Bool.eqb List.length successes remaining_loops]
    in *;
  rewrite ?Nat.add_0_r, ?Nat.add_1_r in *;
  try match goal with
      | H : ldx_gpio_wait_interrupt _ _ = _ |- _ => rewrite H
      end;
  repeat match goal with
         | |- _ /\ _ => split
         | |- True => exact I
         end;
  try assumption; try reflexivity; try lia;
  try (left; reflexivity).

Lemma count_inv_step (w : world) (p : process) (x : sched) :
  hooks_inv p -> count_inv w p -> count_inv w (step w p x).
Proof.
  destruct p as [l gi go fns hs tr]. unfold hooks_inv, count_inv.
  cbn [pc trace atexit_fns sa_handlers gpio_input gpio_output].
  intros (_ & _ & Hh) Hl.
  destruct x as [| |sig]; cbn [step].
  - (* the main thread *)
    unfold main_step. cbn [pc].
    destruct l.
    + destruct check_input_parameters as [[button led]|];
        [destruct ((button <? 0) || (led <? 0))|]; count_close.
    + count_close.
    + destruct sig; count_close.
    + destruct ldx_gpio_request; count_close.
    + destruct ldx_gpio_request eqn:Hg; count_close.
    + destruct (Nat.ltb_spec i TEST_LOOPS) as [Hi|Hi];
        [destruct (ldx_gpio_wait_interrupt w i) eqn:Hw|]; count_close.
      (* the loop is left with [i = TEST_LOOPS] *)
      replace TEST_LOOPS with (count_ev is_wait tr) by lia. assumption.
    + destruct (negb _); count_close.
      match goal with H : _ = O |- _ => rewrite H end. reflexivity.
    + destruct (Z.ltb_spec 0 (remaining_loops cb_data)) as [Hr|Hr];
        count_close.
      right. repeat split; try assumption.
      apply remaining_done. lia.
    + count_close.
    + count_close.
  - (* the callback thread *)
    unfold interrupt_step. cbn [pc].
    destruct l; try unfold gpio_interrupt_cb; count_close.
    match goal with H : remaining_loops _ = _ |- _ => rewrite H end.
    rewrite to_int_sub. f_equal. lia.
  - (* a signal *)
    unfold signal_step, handles. cbn [pc sa_handlers].
    destruct l; try (destruct (existsb _ _)); count_close.
Qed.

Lemma count_inv_run (w : world) (xs : list sched) : count_inv w (run w xs).
Proof.
  apply (run_invariant w (fun p => hooks_inv p /\ count_inv w p)).
  - split; [exact hooks_inv_start | exact (count_inv_start w)].
  - intros p x [Hh Ht]. split.
    + now apply hooks_inv_step.
    + now apply count_inv_step.
Qed.

(** ** C2: the output line alternates *)

Lemma writes_levels (w : world) (xs : list sched) :
  let p := run w xs in
  writes (trace p)
  = alternation (n_press (trace p) + n_callback (trace p)).
Proof.
  intros p. destruct (toggle_inv_run w xs) as (Hs & _).
  unfold writes, alternation. fold p in Hs. rewrite Hs, map_map.
  reflexivity.
Qed.

Lemma nth_error_map_seq (A : Type) (f : nat -> A) (n : nat) :
  forall (s k : nat) (v : A),
    nth_error (map f (seq s n)) k = Some v -> v = f (s + k)%nat.
Proof.
  induction n as [|n IH]; intros s [|k] v; cbn [seq map nth_error];
    try discriminate.
  - intros [= <-]. now rewrite Nat.add_0_r.
  - intros H. apply IH in H. now rewrite Nat.add_succ_r.
Qed.

Lemma firstn_alternation (n : nat) :
  (5 <= n)%nat ->
  firstn 5 (alternation n)
  = [GPIO_HIGH; GPIO_LOW; GPIO_HIGH; GPIO_LOW; GPIO_HIGH].
Proof.
  intros H. unfold alternation.
  replace n with (5 + (n - 5))%nat by lia.
  rewrite seq_app, map_app. reflexivity.
Qed.



(** ** C4: the callback *)

Lemma interrupt_step_parent (p : process)
    (d : gpio_interrupt_cb_data) :
  pc p = at_parent d ->
  interrupt_step p
  = goto (at_parent (snd (fst (gpio_interrupt_cb d))))
      (emit (fst (fst (gpio_interrupt_cb d))) p).
Proof. unfold interrupt_step. intros ->. reflexivity. Qed.

Lemma edges_count_down (w : world) (k : nat) :
  forall (p : process) (d : gpio_interrupt_cb_data),
    pc p = at_parent d ->
    INT_MIN <= remaining_loops d <= INT_MAX ->
    exists d',
      pc (run_from w p (repeat Edge k)) = at_parent d'
      /\ remaining_loops d' = to_int (remaining_loops d - Z.of_nat k).
Proof.
  induction k as [|k IH]; intros p d Hpc Hr.
  - exists d. split; [exact Hpc|].
    rewrite Z.sub_0_r. symmetry. now apply to_int_small.
  - cbn [repeat run_from fold_left step].
    rewrite (interrupt_step_parent p d Hpc).
    destruct (IH (goto (at_parent (snd (fst (gpio_interrupt_cb d))))
                    (emit (fst (fst (gpio_interrupt_cb d))) p))
                 (snd (fst (gpio_interrupt_cb d))) eq_refl)
      as (d' & Hpc' & Hr').
    + cbn [gpio_interrupt_cb fst snd remaining_loops]. apply to_int_range.
    + exists d'. split; [exact Hpc'|]. rewrite Hr'.
      cbn [gpio_interrupt_cb fst snd remaining_loops].
      rewrite to_int_sub. f_equal. lia.
Qed.

(** C4.  A call of the callback drives its line, which is the output line
    in every process that [main] has brought to the parent loop, to the
    other level (High becomes Low, Low becomes High) and takes one off
    [remaining_loops].  From the [TEST_LOOPS] that [main] puts there, the
    parent keeps waiting after fewer than six calls, and after the sixth
    its condition [remaining_loops > 0] is false and it leaves the loop. *)
Theorem callback_toggles_and_counts_down
    (w : world) (p : process) (d : gpio_interrupt_cb_data) :
  pc p = at_parent d ->
  INT_MIN < remaining_loops d <= INT_MAX ->
  (let '(evs, d', ret) := gpio_interrupt_cb d in
   evs = [ev_printf msg_interrupt; ev_gpio_set_value (gpio d) (value d')]
   /\ gpio d' = gpio d
   /\ (value d = GPIO_HIGH -> value d' = GPIO_LOW)
   /\ (value d = GPIO_LOW -> value d' = GPIO_HIGH)
   /\ remaining_loops d' = remaining_loops d - 1
   /\ ret = 0
   /\ interrupt_step p = goto (at_parent d') (emit evs p))
  /\ (remaining_loops d = Z.of_nat TEST_LOOPS ->
      (forall k, (k < TEST_LOOPS)%nat ->
         exists d',
           pc (run_from w p (repeat Edge k)) = at_parent d'
           /\ 0 < remaining_loops d'
           /\ pc (main_step w (run_from w p (repeat Edge k))) = at_parent d')
      /\ exists d',
           pc (run_from w p (repeat Edge TEST_LOOPS)) = at_parent d'
           /\ (0 <? remaining_loops d') = false
           /\ pc (main_step w (run_from w p (repeat Edge TEST_LOOPS)))
              = exited EXIT_SUCCESS)
  /\ (forall xs, p = run w xs -> gpio d = gpio_output p /\ requested_low w p).
Proof.
  intros Hpc Hr. split; [|split]; cycle 2.
  { intros xs ->. destruct (toggle_inv_run w xs) as (_ & _ & Hl).
    rewrite Hpc in Hl. tauto. }
  - cbn [gpio_interrupt_cb value gpio remaining_loops].
    repeat split.
    + intros ->. reflexivity.
    + intros ->. reflexivity.
    + apply to_int_small. lia.
    + unfold interrupt_step. rewrite Hpc. reflexivity.
  - intros H6.
    assert (Hr' : INT_MIN <= remaining_loops d <= INT_MAX) by lia.
    split.
    + intros k Hk.
      destruct (edges_count_down w k p d Hpc Hr') as (d' & Hpc' & Hd').
      rewrite H6 in Hd'.
      rewrite to_int_small in Hd'
        by (unfold TEST_LOOPS, INT_MIN, INT_MAX in *; lia).
      exists d'. split; [exact Hpc'|].
      assert (Hpos : 0 < remaining_loops d') by lia.
      split; [exact Hpos|].
      unfold main_step. rewrite Hpc'.
      apply Z.ltb_lt in Hpos. rewrite Hpos. exact Hpc'.
    + destruct (edges_count_down w TEST_LOOPS p d Hpc Hr')
        as (d' & Hpc' & Hd').
      rewrite H6, Z.sub_diag in Hd'. change (to_int 0) with 0 in Hd'.
      exists d'. split; [exact Hpc'|].
      rewrite Hd'. split; [reflexivity|].
      unfold main_step. rewrite Hpc', Hd'. reflexivity.
Qed.

Lemma callback_toggles_and_counts_down_witness :
  let w := board gpio_example every_line every_press in
  let d := {| gpio := Some 20; value := GPIO_LOW;
              remaining_loops := Z.of_nat TEST_LOOPS |} in
  pc (run w to_parent) = at_parent d
  /\ INT_MIN < remaining_loops d <= INT_MAX
  /\ fst (gpio_interrupt_cb d)
     = ([ev_printf msg_interrupt; ev_gpio_set_value (Some 20) GPIO_HIGH],
        {| gpio := Some 20; value := GPIO_HIGH; remaining_loops := 5 |})
  /\ pc (main_step w (run_from w (run w to_parent) (repeat Edge TEST_LOOPS)))
     = exited EXIT_SUCCESS.
Proof.
  intros w d.
  assert (Hpc : pc (run w to_parent) = at_parent d) by reflexivity.
  assert (Hr : INT_MIN < remaining_loops d <= INT_MAX)
    by (vm_compute; split; [reflexivity | discriminate]).
  destruct (callback_toggles_and_counts_down w (run w to_parent) d Hpc Hr)
    as (_ & Hsix & _).
  destruct (Hsix eq_refl) as (_ & d' & _ & _ & Hexit).
  split; [exact Hpc|]. split; [exact Hr|]. split; [reflexivity|].
  exact Hexit.
Defined.

(** ** C6 and C10: the blocking loop *)

(** C6.  In the blocking loop a wait that ends otherwise than with
    [GPIO_IRQ_ERROR_NONE] (a timeout or an error) is no event: the process
    goes on, nothing is driven on the output line, [output_value] is kept,
    and the loop moves to its next iteration. *)
Theorem failed_wait_is_no_event
    (w : world) (p : process) (i : nat) (output_value : gpio_value_t) :
  pc p = at_blocking i output_value ->
  (i < TEST_LOOPS)%nat ->
  ldx_gpio_wait_interrupt w i <> GPIO_IRQ_ERROR_NONE ->
  let q := main_step w p in
  pc q = at_blocking (S i) output_value
  /\ ended q = false
  /\ trace q = (trace p ++ [ev_gpio_wait_interrupt (gpio_input p) (-1)])%list
  /\ sets (trace q) = sets (trace p)
  /\ n_press (trace q) = n_press (trace p).
Proof.
  intros Hpc Hi Hw q. subst q. unfold main_step. rewrite Hpc.
  apply Nat.ltb_lt in Hi. rewrite Hi.
  destruct (ldx_gpio_wait_interrupt w i); [congruence| |];
    repeat split; unfold_counts; cbn [trace goto emit];
    autorewrite with trace_db; cbn; now rewrite ?app_nil_r, ?Nat.add_0_r.
Qed.

Lemma failed_wait_is_no_event_witness :
  let timeout := fun _ : nat => GPIO_IRQ_ERROR_TIMEOUT in
  let w := board gpio_example every_line timeout in
  let p := run w to_blocking in
  pc p = at_blocking 0 GPIO_LOW
  /\ (0 < TEST_LOOPS)%nat
  /\ ldx_gpio_wait_interrupt w 0 <> GPIO_IRQ_ERROR_NONE
  /\ pc (main_step w p) = at_blocking 1 GPIO_LOW
  /\ sets (trace (main_step w p)) = sets (trace p).
Proof.
  intros timeout w p.
  assert (Hpc : pc p = at_blocking 0 GPIO_LOW) by reflexivity.
  assert (Hi : (0 < TEST_LOOPS)%nat) by (unfold TEST_LOOPS; lia).
  assert (Hw : ldx_gpio_wait_interrupt w 0 <> GPIO_IRQ_ERROR_NONE)
    by discriminate.
  destruct (failed_wait_is_no_event w p 0 GPIO_LOW Hpc Hi Hw)
    as (Hq & _ & _ & Hsets & _).
  split; [exact Hpc|]. split; [exact Hi|]. split; [exact Hw|].
  split; [exact Hq|exact Hsets].
Defined.

Lemma successes_le (w : world) (n : nat) : (successes w n <= n)%nat.
Proof.
  induction n as [|n IH]; cbn [successes]; [lia|].
  destruct (ldx_gpio_wait_interrupt w n); lia.
Qed.

Lemma successes_lt (w : world) (n i : nat) :
  (i < n)%nat ->
  ldx_gpio_wait_interrupt w i <> GPIO_IRQ_ERROR_NONE ->
  (successes w n < n)%nat.
Proof.
  induction n as [|n IH]; intros Hi Hw; [lia|].
  cbn [successes].
  destruct (Nat.eq_dec i n) as [->|Hne].
  - pose proof (successes_le w n).
    destruct (ldx_gpio_wait_interrupt w n); [congruence|lia|lia].
  - assert (successes w n < n)%nat by (apply IH; [lia|exact Hw]).
    destruct (ldx_gpio_wait_interrupt w n); lia.
Qed.

(** The main thread alone goes through the blocking loop in one step per
    iteration. *)
Lemma blocking_loop_runs (w : world) (k : nat) :
  forall (p : process) (i : nat) (v : gpio_value_t),
    pc p = at_blocking i v ->
    (i + k = TEST_LOOPS)%nat ->
    exists v', pc (run_from w p (repeat Main k)) = at_blocking TEST_LOOPS v'.
Proof.
  induction k as [|k IH]; intros p i v Hpc Hik.
  - exists v. cbn [repeat run_from fold_left].
    rewrite Hpc. f_equal. lia.
  - cbn [repeat run_from fold_left step].
    assert (Hi : (i <? TEST_LOOPS)%nat = true) by (apply Nat.ltb_lt; lia).
    destruct (ldx_gpio_wait_interrupt w i) eqn:Hw.
    + apply (IH (main_step w p) (S i)
               (if is_set v then GPIO_LOW else GPIO_HIGH)); [|lia].
      unfold main_step. rewrite Hpc, Hi, Hw. reflexivity.
    + apply (IH (main_step w p) (S i) v); [|lia].
      unfold main_step. rewrite Hpc, Hi, Hw. reflexivity.
    + apply (IH (main_step w p) (S i) v); [|lia].
      unfold main_step. rewrite Hpc, Hi, Hw. reflexivity.
Qed.

(** C10.  The blocking loop calls [ldx_gpio_wait_interrupt] once per
    iteration, six times in all: while the main thread is in iteration [i]
    it has called it [i] times, and once the loop is left it has called it
    [TEST_LOOPS] times.  The output line is driven once for each wait
    that detected an edge, so a wait that fails uses up its iteration and
    the loop ends with fewer than six toggles. *)
Theorem blocking_loop_waits_six_times (w : world) (xs : list sched) :
  let p := run w xs in
  (forall i v,
     pc p = at_blocking i v ->
     (i <= TEST_LOOPS)%nat
     /\ n_wait (trace p) = i
     /\ List.length (sets (trace p)) = successes w i
     /\ exists v',
          pc (run_from w p (repeat Main (TEST_LOOPS - i + 1))) = at_async v')
  /\ (forall v,
        pc p = at_async v ->
        n_wait (trace p) = TEST_LOOPS
        /\ List.length (sets (trace p)) = successes w TEST_LOOPS
        /\ (successes w TEST_LOOPS <= TEST_LOOPS)%nat
        /\ (forall i, (i < TEST_LOOPS)%nat ->
              ldx_gpio_wait_interrupt w i <> GPIO_IRQ_ERROR_NONE ->
              (List.length (sets (trace p)) < TEST_LOOPS)%nat))
  /\ (forall d, pc p = at_parent d -> n_wait (trace p) = TEST_LOOPS)
  /\ (pc p = exited EXIT_SUCCESS -> n_wait (trace p) = TEST_LOOPS).
Proof.
  intros p.
  pose proof (count_inv_run w xs) as Hc.
  destruct (toggle_inv_run w xs) as (Hs & _).
  fold p in Hc, Hs. unfold count_inv in Hc.
  assert (Hlen : List.length (sets (trace p))
                 = (n_press (trace p) + n_callback (trace p))%nat)
    by now rewrite Hs, length_map, length_seq.
  split; [|split; [|split]].
  - intros i v Hpc. rewrite Hpc in Hc.
    destruct Hc as (Hi & Hw & Hp & Hcb).
    split; [exact Hi|]. split; [exact Hw|]. split; [lia|].
    destruct (blocking_loop_runs w (TEST_LOOPS - i) p i v Hpc) as [v' Hv'];
      [lia|].
    exists v'. rewrite repeat_app, run_from_app.
    cbn [repeat run_from fold_left step].
    unfold main_step. rewrite Hv', Nat.ltb_irrefl. reflexivity.
  - intros v Hpc. rewrite Hpc in Hc. destruct Hc as (Hw & Hp & Hcb).
    split; [exact Hw|]. split; [lia|].
    split; [apply successes_le|].
    intros i Hi Hfail.
    pose proof (successes_lt w TEST_LOOPS i Hi Hfail). lia.
  - intros d Hpc. rewrite Hpc in Hc. tauto.
  - intros Hpc. rewrite Hpc in Hc.
    destruct Hc as [Hc|Hc]; [discriminate Hc|tauto].
Qed.

Lemma blocking_loop_waits_six_times_witness :
  let w := board gpio_example every_line no_press in
  let p := run w (to_blocking ++ repeat Main 7)%list in
  pc p = at_async GPIO_LOW
  /\ n_wait (trace p) = TEST_LOOPS
  /\ (0 < TEST_LOOPS)%nat
  /\ ldx_gpio_wait_interrupt w 0 <> GPIO_IRQ_ERROR_NONE
  /\ (List.length (sets (trace p)) < TEST_LOOPS)%nat.
Proof.
  intros w p.
  assert (Hpc : pc p = at_async GPIO_LOW) by reflexivity.
  assert (Hi : (0 < TEST_LOOPS)%nat) by (unfold TEST_LOOPS; lia).
  assert (Hw : ldx_gpio_wait_interrupt w 0 <> GPIO_IRQ_ERROR_NONE)
    by discriminate.
  destruct (blocking_loop_waits_six_times w
              (to_blocking ++ repeat Main 7)%list) as (_ & Hasync & _).
  destruct (Hasync GPIO_LOW Hpc) as (Hn & _ & _ & Hlt).
  split; [exact Hpc|]. split; [exact Hn|]. split; [exact Hi|].
  split; [exact Hw|]. exact (Hlt 0%nat Hi Hw).
Defined.

(** ** C9: the early exits *)

Lemma wrong_count_is_refused (w : world) :
  List.length (argv w) <> 1%nat ->
  List.length (argv w) <> 3%nat ->
  check_input_parameters w = None.
Proof.
  intros H1 H3. unfold check_input_parameters.
  apply Nat.eqb_neq in H1, H3. now rewrite H1, H3.
Qed.

Lemma bad_arguments_exit (w : world) (p : process) :
  bad_arguments w ->
  pc p = at_entry ->
  main_step w p
  = exit EXIT_FAILURE
      (emit [ev_printf
               match check_input_parameters w with
               | None => "Example application using libdigiapix GPIO support"
               | Some _ => "Unable to parse button and led GPIOs"
               end] p).
Proof.
  intros Hbad Hpc. unfold main_step. rewrite Hpc.
  destruct Hbad as [[H1 H3]|(button & led & Hcheck & Hneg)].
  - rewrite (wrong_count_is_refused w H1 H3). reflexivity.
  - rewrite Hcheck.
    replace ((button <? 0) || (led <? 0)) with true; [reflexivity|].
    symmetry. apply orb_true_iff. rewrite !Z.ltb_lt. exact Hneg.
Qed.

Lemma early_inv_step (w : world) (p : process) (x : sched) :
  bad_arguments w -> early_inv p -> early_inv (step w p x).
Proof.
  intros Hbad [Hpc Hfns].
  destruct Hpc as [Hpc|Hend]; [|now rewrite ended_step; [split; auto|]].
  destruct x as [| |sig]; cbn [step].
  - rewrite (bad_arguments_exit w p Hbad Hpc).
    unfold exit, emit. cbn [atexit_fns]. rewrite Hfns.
    split; [right|]; reflexivity.
  - unfold interrupt_step. rewrite Hpc. split; [now left|exact Hfns].
  - unfold signal_step, sigaction_handler, exit. rewrite Hpc, Hfns.
    destruct (existsb _ _); split; try (right; reflexivity); exact Hfns.
Qed.

(** C9.  With a wrong argument count or a negative line identifier the
    first step of [main] ends the process with [EXIT_FAILURE], before
    [atexit] is reached: whatever happens to the process, [cleanup] is
    never registered and none of its calls is ever made. *)
Theorem early_exit_skips_cleanup (w : world) (xs : list sched) :
  bad_arguments w ->
  pc (main_step w start) = exited EXIT_FAILURE
  /\ pc (run w (Main :: xs)) = exited EXIT_FAILURE
  /\ atexit_fns (run w xs) = []
  /\ n_atexit (trace (run w xs)) = O
  /\ n_cleanup (trace (run w xs)) = O
  /\ n_free (trace (run w xs)) = O.
Proof.
  intros Hbad.
  assert (H1 : pc (main_step w start) = exited EXIT_FAILURE).
  { rewrite (bad_arguments_exit w start Hbad eq_refl). reflexivity. }
  assert (Hearly : early_inv (run w xs)).
  { apply (run_invariant w early_inv).
    - split; [now left|reflexivity].
    - intros p x. now apply early_inv_step. }
  destruct Hearly as [Hpc Hfns].
  destruct (hooks_inv_run w xs) as (Hn & _ & Hl).
  split; [exact H1|]. split; [|split; [exact Hfns|]].
  - change (pc (run_from w (main_step w start) xs) = exited EXIT_FAILURE).
    rewrite ended_run_from; [exact H1|].
    unfold ended. now rewrite H1.
  - rewrite Hfns in Hn. split; [exact Hn|].
    destruct Hpc as [Hpc|Hend].
    + rewrite Hpc in Hl. exact (proj2 (proj2 Hl)).
    + unfold ended in Hend.
      destruct (pc (run w xs)); try discriminate Hend.
      * destruct Hl as [[_ Hno]|[Hreg _]]; [exact Hno|].
        rewrite Hfns in Hreg. discriminate Hreg.
      * exact (proj2 Hl).
Qed.

Lemma early_exit_skips_cleanup_witness :
  let w := board ["apix-gpio-example"; "12"]%string every_line every_press in
  let xs := [Edge; Main; Signal SIGTERM; Main] in
  bad_arguments w
  /\ pc (run w (Main :: xs)) = exited EXIT_FAILURE
  /\ n_atexit (trace (run w xs)) = O
  /\ n_cleanup (trace (run w xs)) = O.
Proof.
  intros w xs.
  assert (Hbad : bad_arguments w).
  { left. split; discriminate. }
  destruct (early_exit_skips_cleanup w xs Hbad) as (_ & H1 & _ & H2 & H3 & _).
  split; [exact Hbad|]. split; [exact H1|]. split; [exact H2|exact H3].
Defined.

(** ** C5: the cleanup hook *)

(** With arguments that [main] accepts, its first five steps register
    [cleanup] and then the three handlers. *)
Lemma startup (w : world) (button led : Z) :
  check_input_parameters w = Some (button, led) ->
  0 <= button -> 0 <= led ->
  run w (repeat Main 5)
  = {| pc := at_request_input button led;
       gpio_input := None; gpio_output := None;
       atexit_fns := [fn_cleanup];
       sa_handlers := [SIGTERM; SIGINT; SIGHUP];
       trace := [ev_atexit; ev_sigaction SIGHUP; ev_sigaction SIGINT;
                 ev_sigaction SIGTERM] |}.
Proof.
  intros Hcheck Hb Hl. unfold run, run_from.
  cbn [repeat fold_left step].
  assert (H1 : main_step w start = goto (at_atexit button led) start).
  { unfold main_step. cbn [pc start]. rewrite Hcheck.
    replace ((button <? 0) || (led <? 0)) with false; [reflexivity|].
    symmetry. apply orb_false_iff. rewrite !Z.ltb_ge. now split. }
  rewrite H1. reflexivity.
Qed.

Lemma handles_registered (p : process) (sig : signal) :
  sa_handlers p = [SIGTERM; SIGINT; SIGHUP] -> handles p sig = true.
Proof. unfold handles. intros ->. destruct sig; reflexivity. Qed.




(** ** C3: the exit status *)

Lemma bad_arguments_run (w : world) (xs : list sched) :
  bad_arguments w -> pc (run w (Main :: xs)) = exited EXIT_FAILURE.
Proof.
  intros Hbad.
  assert (H1 : pc (main_step w start) = exited EXIT_FAILURE).
  { rewrite (bad_arguments_exit w start Hbad eq_refl). reflexivity. }
  change (pc (run_from w (main_step w start) xs) = exited EXIT_FAILURE).
  rewrite ended_run_from; [exact H1|].
  unfold ended. now rewrite H1.
Qed.

Lemma request_input_step (w : world) (button led : Z) :
  check_input_parameters w = Some (button, led) ->
  0 <= button -> 0 <= led ->
  run w (repeat Main 6)
  = let g := ldx_gpio_request w (to_uint button) GPIO_IRQ_EDGE_RISING
               REQUEST_SHARED in
    let p := set_gpio_input g
               (emit [ev_gpio_request (to_uint button) GPIO_IRQ_EDGE_RISING
                        REQUEST_SHARED] (run w (repeat Main 5))) in
    match g with
    | None =>
        exit EXIT_FAILURE
          (emit [ev_printf "Failed to initialize input GPIO"] p)
    | Some _ => goto (at_request_output led) p
    end.
Proof.
  intros Hcheck Hb Hl.
  change (repeat Main 6) with (repeat Main 5 ++ [Main])%list.
  rewrite run_snoc, (startup w button led Hcheck Hb Hl). reflexivity.
Qed.

Lemma request_output_step (w : world) (button led : Z) (g : gpio_t) :
  check_input_parameters w = Some (button, led) ->
  0 <= button -> 0 <= led ->
  ldx_gpio_request w (to_uint button) GPIO_IRQ_EDGE_RISING REQUEST_SHARED
  = Some g ->
  run w (repeat Main 7)
  = let g' := ldx_gpio_request w (to_uint led) GPIO_OUTPUT_LOW
                REQUEST_SHARED in
    let p := set_gpio_output g'
               (emit [ev_gpio_request (to_uint led) GPIO_OUTPUT_LOW
                        REQUEST_SHARED] (run w (repeat Main 6))) in
    match g' with
    | None =>
        exit EXIT_FAILURE
          (emit [ev_printf "Failed to initialize output GPIO"] p)
    | Some _ =>
        goto (at_blocking 0 GPIO_LOW)
          (emit [ev_gpio_set_active_mode (gpio_input p) GPIO_ACTIVE_HIGH;
                 ev_printf "[INFO] Testing interrupt blocking mode";
                 ev_printf "Press the button (for %d events):"] p)
    end.
Proof.
  intros Hcheck Hb Hl Hg.
  change (repeat Main 7) with (repeat Main 6 ++ [Main])%list.
  rewrite run_snoc, (request_input_step w button led Hcheck Hb Hl).
  rewrite (startup w button led Hcheck Hb Hl), Hg. reflexivity.
Qed.

Lemma exited_run_app (w : world) (xs ys : list sched) (status : Z) :
  pc (run w xs) = exited status -> pc (run w (xs ++ ys)) = exited status.
Proof.
  intros H. unfold run. rewrite run_from_app. fold (run w xs).
  rewrite ended_run_from; [exact H|]. unfold ended. now rewrite H.
Qed.

(** C3 (as amended).  The process ends with [EXIT_FAILURE] when the
    argument count is wrong or a line identifier is parsed or resolved to a
    negative number, and when the request of the input line or of the
    output line fails.  It ends with [EXIT_SUCCESS] only after the blocking
    loop has made its [TEST_LOOPS] waits, each of them either a press that
    toggled the output or a wait that failed, and the callback has handled
    at least [TEST_LOOPS] interrupts; no other status occurs. *)
Theorem exit_status (w : world) :
  (bad_arguments w ->
   forall xs, pc (run w (Main :: xs)) = exited EXIT_FAILURE)
  /\ (forall button led,
        check_input_parameters w = Some (button, led) ->
        0 <= button -> 0 <= led ->
        (ldx_gpio_request w (to_uint button) GPIO_IRQ_EDGE_RISING
           REQUEST_SHARED = None ->
         forall xs, pc (run w (repeat Main 6 ++ xs)) = exited EXIT_FAILURE)
        /\ (ldx_gpio_request w (to_uint button) GPIO_IRQ_EDGE_RISING
              REQUEST_SHARED <> None ->
            ldx_gpio_request w (to_uint led) GPIO_OUTPUT_LOW
              REQUEST_SHARED = None ->
            forall xs,
              pc (run w (repeat Main 7 ++ xs)) = exited EXIT_FAILURE))
  /\ (forall xs status,
        pc (run w xs) = exited status ->
        status = EXIT_FAILURE
        \/ (status = EXIT_SUCCESS
            /\ n_wait (trace (run w xs)) = TEST_LOOPS
            /\ n_press (trace (run w xs)) = successes w TEST_LOOPS
            /\ (TEST_LOOPS <= n_callback (trace (run w xs)))%nat)).
Proof.
  split; [|split].
  - intros Hbad xs. now apply bad_arguments_run.
  - intros button led Hcheck Hb Hl. split.
    + intros Hin xs. apply exited_run_app.
      rewrite (request_input_step w button led Hcheck Hb Hl).
      cbv zeta. rewrite Hin. reflexivity.
    + intros Hin Hout xs. apply exited_run_app.
      destruct (ldx_gpio_request w (to_uint button) GPIO_IRQ_EDGE_RISING
                  REQUEST_SHARED) as [g|] eqn:Hg; [|congruence].
      rewrite (request_output_step w button led g Hcheck Hb Hl Hg).
      cbv zeta. rewrite Hout. reflexivity.
  - intros xs status Hpc.
    pose proof (count_inv_run w xs) as Hc. unfold count_inv in Hc.
    rewrite Hpc in Hc. exact Hc.
Qed.

Lemma exit_status_witness :
  let w := board gpio_example every_line every_press in
  let no_led := board gpio_example (fun n => negb (n =? 20)) every_press in
  let few := board ["apix-gpio-example"; "12"]%string every_line every_press in
  let xs := (to_parent ++ repeat Edge 6 ++ [Main])%list in
  pc (run w xs) = exited EXIT_SUCCESS
  /\ n_wait (trace (run w xs)) = TEST_LOOPS
  /\ (TEST_LOOPS <= n_callback (trace (run w xs)))%nat
  /\ bad_arguments few
  /\ pc (run few [Main]) = exited EXIT_FAILURE
  /\ check_input_parameters no_led = Some (10, 20)
  /\ ldx_gpio_request no_led (to_uint 20) GPIO_OUTPUT_LOW REQUEST_SHARED = None
  /\ pc (run no_led (repeat Main 7 ++ [Main])) = exited EXIT_FAILURE.
Proof.
  intros w no_led few xs.
  assert (Hpc : pc (run w xs) = exited EXIT_SUCCESS) by reflexivity.
  assert (Hbad : bad_arguments few) by (left; split; discriminate).
  assert (Hcheck : check_input_parameters no_led = Some (10, 20))
    by reflexivity.
  assert (Hout : ldx_gpio_request no_led (to_uint 20) GPIO_OUTPUT_LOW
                   REQUEST_SHARED = None) by reflexivity.
  destruct (exit_status w) as (_ & _ & Hw).
  destruct (Hw xs EXIT_SUCCESS Hpc) as [H|(_ & Hn & _ & Hcb)];
    [discriminate H|].
  destruct (exit_status few) as (Hfew & _).
  destruct (exit_status no_led) as (_ & Hled & _).
  destruct (Hled 10 20 Hcheck) as (_ & Hled'); [lia|lia|].
  split; [exact Hpc|]. split; [exact Hn|]. split; [exact Hcb|].
  split; [exact Hbad|]. split; [exact (Hfew Hbad [])|].
  split; [exact Hcheck|]. split; [exact Hout|].
  apply Hled'; [discriminate|exact Hout].
Defined.

(** C3 as stated fails: when every blocking wait fails, the process still
    ends with [EXIT_SUCCESS] after six interrupts in callback mode, and no
    press was handled in blocking mode. *)
Lemma exit_success_without_presses :
  let w := board gpio_example every_line no_press in
  let p := run w (to_parent ++ repeat Edge 6 ++ [Main])%list in
  pc p = exited EXIT_SUCCESS
  /\ n_press (trace p) = O
  /\ n_press (trace p) <> TEST_LOOPS
  /\ sets (trace (run w to_parent)) = [].
Proof. repeat split. discriminate. Qed.

(** ** C7: the default aliases *)

Lemma parse_argument_default (L : libc) (alias : string -> Z) (s : string) :
  noconv_errno L = 0 ->
  head_is isspace s = false ->
  head_is is_sign s = false ->
  head_is isdigit s = false ->
  parse_argument L alias s = alias s.
Proof.
  intros Herrno Hsp Hsg Hd.
  apply (parse_argument_alias L alias "" "" s NoSign);
    try reflexivity; try assumption.
  intros _. now split.
Qed.



